(** * Capacity-aware K-Means clustering of student runs

    A shallow embedding of [src/clustering/cluster_students_kmeans.py]
    and the properties of its clustering engine.

    Conventions of the embedding.
    - Python [int]s are [Z]; list positions and cluster indices, which the
      source only ever produces with [range] and [enumerate], are [nat].
    - Python [float]s are kept behind an interface ([FloatOps]) listing the
      operations the source applies to them; IEEE binary64 ([PrimFloat]) and
      an exact rational model are its two instances.
    - The process-wide [random] module is an explicit state of an abstract
      random source ([RandomSource]) threaded through every draw.
    - An exception is a value: a fallible computation returns [res A]. *)

From Stdlib Require Import ZArith QArith Qround Qcanon Lia.
From Stdlib Require Import Uint63 Floats.
From stdpp Require Import base tactics option list strings pretty sorting.

Set Default Proof Using "Type*".

(** ** Exceptions *)

(** The two built-in exceptions the clustering code can raise. *)
Inductive PyExc : Type :=
  | IndexError
  | ValueError.

Inductive res (A : Type) : Type :=
  | Ok (a : A)
  | Raise (e : PyExc).
Arguments Ok {A} a.
Arguments Raise {A} e.

#[global] Instance res_ret : MRet res := fun A a => Ok a.
#[global] Instance res_bind : MBind res := fun A B f m =>
  match m with
  | Ok a => f a
  | Raise e => Raise e
  end.

Definition is_ok {A : Type} (m : res A) : Prop := exists a, m = Ok a.

(** [l[i]] for a position [i >= 0]. *)
Definition py_get {A : Type} (l : list A) (i : nat) : res A :=
  match l !! i with
  | Some x => Ok x
  | None => Raise IndexError
  end.

(** [l[i] = x] for a position [i >= 0]: Python raises out of range. *)
Definition py_set {A : Type} (l : list A) (i : nat) (x : A) : res (list A) :=
  if decide (i < length l) then Ok (<[i := x]> l) else Raise IndexError.

(** [range(k)] and [range(1, k)] for an integer [k]. *)
Definition py_range (k : Z) : list nat := seq 0 (Z.to_nat k).
Definition py_range1 (k : Z) : list nat := seq 1 (Z.to_nat (k - 1)).

(** [enumerate(l)]. *)
Definition enumerate {A : Type} (l : list A) : list (nat * A) :=
  zip (seq 0 (length l)) l.

(** ** Cluster-count selector *)

(** [n / m] on two [int]s.  Python rounds the quotient to a double; the
    embedding keeps the exact rational, from which [choose_k] gets the same
    value whenever [0 < n < 2^53] (a quotient that is not an integer then
    lies more than half an ulp above the integer below it). *)
Definition true_div (n m : Z) : Q := (inject_Z n / inject_Z m)%Q.

Definition math_ceil (q : Q) : Z := Qceiling q.

Definition choose_k (n target_capacity : Z) : Z :=
  if (n <=? 0)%Z then 0%Z
  else
    let k := math_ceil (true_div n (Z.max 1 target_capacity)) in
    let k := Z.max 1 (Z.min k n) in
    k.

(** ** The interfaces of [float] and of the [random] module *)

(** The operations the source applies to a [float].  [fsq x] is [x ** 2],
    [fdivn x n] is [x / n] for a positive [int] [n] (the only division of
    the source, [sums[i][0] / counts[i]] behind the test [counts[i] == 0]),
    [flt] is [<] and [fisnan] is [math.isnan].  [fisfinite], that is
    [math.isfinite], is not called by the source: statements use it to say
    that a coordinate is an ordinary number.  [x ** 2] is taken as a total
    operation: CPython raises [OverflowError] when the square leaves the
    range of a double, far outside geographic coordinates. *)
Class FloatOps (F : Type) : Type := {
  fzero : F;
  fnan : F;
  fadd : F -> F -> F;
  fsub : F -> F -> F;
  fsq : F -> F;
  fdivn : F -> nat -> F;
  flt : F -> F -> bool;
  fisnan : F -> bool;
  fisfinite : F -> bool;
}.

(** The two conversions between [float] and text that [main] performs:
    [float(s)], which raises [ValueError] on a malformed string, and the
    format [f"{x:.6f}"]. *)
Class FloatText (F : Type) : Type := {
  float_of_string : string -> option F;
  format_6f : F -> string;
}.

(** The [random] module with its state of type [G]: [random.seed(n)],
    the position [random.choice] draws in a sequence of [n] elements, and
    the positions [random.sample] selects, [k] out of [n]. *)
Class RandomSource (G : Type) : Type := {
  rand_seed : Z -> G;
  rand_below : nat -> G -> nat * G;
  rand_sample : nat -> nat -> G -> list nat * G;
}.

(** [random.choice(seq)]. *)
Definition py_choice {A G : Type} `{RandomSource G}
    (seq : list A) (s : G) : res (A * G) :=
  match seq with
  | [] => Raise IndexError
  | _ :: _ =>
      let '(i, s') := rand_below (length seq) s in
      x ← py_get seq i; Ok (x, s')
  end.

(** [random.sample(population, k)]. *)
Definition py_sample {A G : Type} `{RandomSource G}
    (population : list A) (k : Z) (s : G) : res (list A * G) :=
  if decide (0 <= k <= Z.of_nat (length population))%Z then
    let '(js, s') := rand_sample (length population) (Z.to_nat k) s in
    result ← mapM (py_get population) js; Ok (result, s')
  else Raise ValueError.

(** ** What the statements assume of the two interfaces *)

(** Order and classification of [float]s, as IEEE 754 has them: [<] is a
    strict order in which not-a-number compares with nothing and any two
    numbers compare, [float("nan")] is not-a-number and a finite value is
    a number. *)
Class FloatOrder (F : Type) `{FloatOps F} : Prop := {
  fisnan_fnan : fisnan fnan = true;
  fisfinite_number x : fisfinite x = true -> fisnan x = false;
  flt_irrefl x : flt x x = false;
  flt_trans x y z : flt x y = true -> flt y z = true -> flt x z = true;
  flt_nan_l x y : fisnan x = true -> flt x y = false;
  flt_nan_r x y : fisnan y = true -> flt x y = false;
  flt_cotrans x y z :
    fisnan y = false -> flt x z = true -> flt x y = true \/ flt y z = true;
}.

(** [x == y] on floats, which the source never evaluates, and the relation
    of two floats that are both not-a-number or equal as numbers. *)
Definition feq {F : Type} `{FloatOps F} (x y : F) : bool :=
  negb (fisnan x) && negb (fisnan y) && negb (flt x y) && negb (flt y x).

Definition fsame {F : Type} `{FloatOps F} (x y : F) : bool :=
  (fisnan x && fisnan y) || feq x y.

(** Arithmetic of [float]s, as IEEE 754 has it: zero is a number; a number
    plus a finite value, and a number divided by a positive count, are
    numbers; the mean of one value is that value; the operations of
    [euclidean2] take equal arguments to equal results. *)
Class FloatArith (F : Type) `{FloatOps F} : Prop := {
  fzero_number : fisnan fzero = false;
  fadd_number x y :
    fisnan x = false -> fisfinite y = true -> fisnan (fadd x y) = false;
  fdivn_number x n :
    fisnan x = false -> 0 < n -> fisnan (fdivn x n) = false;
  fmean_one x : fsame (fdivn (fadd fzero x) 1) x = true;
  fsub_same x y y' : fsame y y' = true -> fsame (fsub x y) (fsub x y') = true;
  fsq_same x x' : fsame x x' = true -> fsame (fsq x) (fsq x') = true;
  fadd_same x x' y y' :
    fsame x x' = true -> fsame y y' = true ->
    fsame (fadd x y) (fadd x' y') = true;
}.

(** The contract of the [random] module: [random.choice] draws a position
    of the sequence, [random.sample] selects [k] positions of the
    population. *)
Class RandomLaws (G : Type) `{RandomSource G} : Prop := {
  rand_below_lt n s : 0 < n -> (rand_below n s).1 < n;
  rand_sample_length n k s : k <= n -> length (rand_sample n k s).1 = k;
  rand_sample_lt n k s :
    k <= n -> Forall (fun j => j < n) (rand_sample n k s).1;
}.

(** ** The clustering engine *)

Section engine.
Context {F : Type} `{FloatOps F} {G : Type} `{RandomSource G}.

Definition point : Type := F * F.

Definition euclidean2 (a b : point) : F :=
  fadd (fsq (fsub a.1 b.1)) (fsq (fsub a.2 b.2)).

Definition init_centroids (points : list point) (k : Z) (s : G)
    : res (list point * G) :=
  if decide (Z.of_nat (length points) <= k)%Z then Ok (points, s)
  else py_sample points k s.

(** The loop [for p, c in zip(points, assignments)] of
    [recompute_centroids]. *)
Fixpoint accumulate (pcs : list (point * nat))
    (sums : list point) (counts : list nat)
    : res (list point * list nat) :=
  match pcs with
  | [] => Ok (sums, counts)
  | (p, c) :: pcs' =>
      sc ← py_get sums c;
      sums' ← py_set sums c (fadd sc.1 p.1, fadd sc.2 p.2);
      n ← py_get counts c;
      counts' ← py_set counts c (n + 1);
      accumulate pcs' sums' counts'
  end.

(** The body of the loop [for i in range(k)] of [recompute_centroids]. *)
Definition centroid_of (sums : list point) (counts : list nat) (i : nat)
    : res point :=
  n ← py_get counts i;
  if decide (n = 0) then Ok (fnan, fnan)
  else sc ← py_get sums i; Ok (fdivn sc.1 n, fdivn sc.2 n).

Definition recompute_centroids (points : list point)
    (assignments : list nat) (k : Z) : res (list point) :=
  let sums := replicate (Z.to_nat k) (fzero, fzero) in
  let counts := replicate (Z.to_nat k) 0 in
  '(sums, counts) ← accumulate (zip points assignments) sums counts;
  mapM (centroid_of sums counts) (py_range k).

(** The loop [for c in range(1, k)] of the assign step, from the
    current [best_c] and [best_d]. *)
Fixpoint scan (p : point) (centroids : list point) (cs : list nat)
    (best_c : nat) (best_d : F) : res (nat * F) :=
  match cs with
  | [] => Ok (best_c, best_d)
  | c :: cs' =>
      cc ← py_get centroids c;
      let d := euclidean2 p cc in
      if flt d best_d then scan p centroids cs' c d
      else scan p centroids cs' best_c best_d
  end.

(** The centroid index the assign step computes for the point [p]. *)
Definition nearest (p : point) (centroids : list point) (k : Z)
    : res nat :=
  c0 ← py_get centroids 0;
  '(best_c, _) ← scan p centroids (py_range1 k) 0 (euclidean2 p c0);
  Ok best_c.

(** The loop [for i, p in enumerate(points)] of the assign step. *)
Fixpoint assign (ips : list (nat * point)) (centroids : list point)
    (k : Z) (assignments : list nat) (changed : bool)
    : res (list nat * bool) :=
  match ips with
  | [] => Ok (assignments, changed)
  | (i, p) :: ips' =>
      best_c ← nearest p centroids k;
      a ← py_get assignments i;
      if decide (a ≠ best_c) then
        assignments' ← py_set assignments i best_c;
        assign ips' centroids k assignments' true
      else assign ips' centroids k assignments changed
  end.

Definition point_isnan (c : point) : bool := fisnan c.1 || fisnan c.2.

(** The loop [for c in range(k)] that re-seeds the empty clusters. *)
Fixpoint reseed (cs : list nat) (points centroids : list point)
    (changed : bool) (s : G) : res (list point * bool * G) :=
  match cs with
  | [] => Ok (centroids, changed, s)
  | c :: cs' =>
      cc ← py_get centroids c;
      if point_isnan cc then
        '(p, s') ← py_choice points s;
        centroids' ← py_set centroids c p;
        reseed cs' points centroids' true s'
      else reseed cs' points centroids changed s
  end.

(** What one pass of the loop [for _ in range(max_iter)] leaves: the
    assignments and centroids, and the value of [changed] after the assign
    step and at the end of the pass.  For the statements only, it also
    records the assignments and centroids the pass started from and the
    centroids as [recompute_centroids] returned them. *)
Record cycle : Type := {
  cy_start_assignments : list nat;
  cy_start_centroids : list point;
  cy_assignments : list nat;
  cy_recomputed : list point;
  cy_centroids : list point;
  cy_moved : bool;
  cy_changed : bool;
}.

Definition kmeans_cycle (points : list point) (k : Z)
    (assignments : list nat) (centroids : list point) (s : G)
    : res (cycle * G) :=
  '(assignments1, moved) ←
    assign (enumerate points) centroids k assignments false;
  centroids1 ← recompute_centroids points assignments1 k;
  '(centroids2, changed, s') ←
    reseed (py_range k) points centroids1 moved s;
  Ok ({| cy_start_assignments := assignments;
         cy_start_centroids := centroids;
         cy_assignments := assignments1; cy_recomputed := centroids1;
         cy_centroids := centroids2; cy_moved := moved;
         cy_changed := changed |}, s').

(** The loop [for _ in range(max_iter)], [fuel] passes of it being
    left; the passes made are logged in order. *)
Fixpoint kmeans_loop (fuel : nat) (points : list point) (k : Z)
    (assignments : list nat) (centroids : list point) (s : G)
    : res (list nat * list point * G * list cycle) :=
  match fuel with
  | O => Ok (assignments, centroids, s, [])
  | S fuel' =>
      '(cy, s') ← kmeans_cycle points k assignments centroids s;
      if negb (cy_changed cy) then
        Ok (cy_assignments cy, cy_centroids cy, s', [cy])
      else
        '(assignments', centroids', s'', log) ←
          kmeans_loop fuel' points k
            (cy_assignments cy) (cy_centroids cy) s';
        Ok (assignments', centroids', s'', cy :: log)
  end.

(** [kmeans] with the log of its passes. *)
Definition kmeans_log (points : list point) (k max_iter : Z) (s : G)
    : res (list nat * list point * G * list cycle) :=
  '(centroids, s') ← init_centroids points k s;
  let assignments := replicate (length points) 0 in
  kmeans_loop (Z.to_nat max_iter) points k assignments centroids s'.

(** [kmeans(points, k, max_iter)]: the pair it returns and the state
    in which it leaves the random source. *)
Definition kmeans (points : list point) (k max_iter : Z) (s : G)
    : res (list nat * list point * G) :=
  '(assignments, centroids, s', _) ← kmeans_log points k max_iter s;
  Ok (assignments, centroids, s').

End engine.

(** ** The batch: grouping, clustering each group, formatting *)

(** A row of [student_runs.csv], as [csv.DictReader] yields it, with the
    columns [main] reads and writes. *)
Record run_row : Type := {
  run_id : string;
  day : string;
  time_window_start : string;
  time_window_end : string;
  student_id : string;
  home_lat : string;
  home_lng : string;
  university_id : string;
}.


(** A row of [cluster_summary.csv]. *)
Record summary_row : Type := {
  sm_day : string;
  sm_time_window_start : string;
  sm_time_window_end : string;
  sm_university_id : string;
  sm_cluster_id : string;
  sm_cluster_size : string;
  sm_centroid_lat : string;
  sm_centroid_lng : string;
}.

Definition group_key : Type := string * string * string * string.

Definition key_of (r : run_row) : group_key :=
  (day r, time_window_start r, time_window_end r, university_id r).

(** [groups[key].append(r)] on a [defaultdict(list)]: a dictionary keeps
    its keys in the order of their first insertion. *)
Fixpoint groups_append (key : group_key) (r : run_row)
    (groups : list (group_key * list run_row))
    : list (group_key * list run_row) :=
  match groups with
  | [] => [(key, [r])]
  | (key', g) :: groups' =>
      if decide (key' = key) then (key', g ++ [r]) :: groups'
      else (key', g) :: groups_append key r groups'
  end.

Definition group_rows (rows : list run_row)
    : list (group_key * list run_row) :=
  foldl (fun groups r => groups_append (key_of r) r groups) [] rows.

(** The format [{n:02d}] of a non-negative integer. *)
Definition format_02d (n : nat) : string :=
  if decide (n < 10) then "0" +:+ pretty n else pretty n.

(** [f"{day}_{start}-{end}_{uni}_C{idx+1:02d}"]. *)
Definition make_cluster_id (key : group_key) (idx : nat) : string :=
  let '(d, start, end_, uni) := key in
  d +:+ "_" +:+ start +:+ "-" +:+ end_ +:+ "_" +:+ uni +:+ "_C"
    +:+ format_02d (idx + 1).

(** The loop [for a in assignments: cluster_counts[a] += 1]. *)
Fixpoint count_clusters (assignments : list nat) (cluster_counts : list nat)
    : res (list nat) :=
  match assignments with
  | [] => Ok cluster_counts
  | a :: assignments' =>
      n ← py_get cluster_counts a;
      cluster_counts' ← py_set cluster_counts a (n + 1);
      count_clusters assignments' cluster_counts'
  end.





Section batch.
Context {F : Type} `{FloatOps F} `{FloatText F} {G : Type} `{RandomSource G}.




(** The row of [cluster_summary.csv] of the cluster [idx]. *)
Definition summary_row_of (key : group_key) (cluster_counts : list nat)
    (ic : nat * @point F) : res summary_row :=
  let '(idx, (cx, cy)) := ic in
  let '(d, start, end_, uni) := key in
  size ← py_get cluster_counts idx;
  Ok {| sm_day := d; sm_time_window_start := start;
        sm_time_window_end := end_; sm_university_id := uni;
        sm_cluster_id := make_cluster_id key idx;
        sm_cluster_size := pretty size;
        sm_centroid_lat := format_6f cx;
        sm_centroid_lng := format_6f cy |}.




End batch.

(** ** Instances of the interfaces *)

(** IEEE 754 binary64, the [float] of CPython.  [x ** 2] is rounded as the
    product [x * x]; a count is converted as a 63-bit integer. *)
Module Binary64.

Definition of_count (n : nat) : float :=
  PrimFloat.of_uint63 (Uint63.of_Z (Z.of_nat n)).

#[global] Instance ops : FloatOps float := {|
  fzero := 0%float;
  fnan := PrimFloat.nan;
  fadd := PrimFloat.add;
  fsub := PrimFloat.sub;
  fsq := fun x => PrimFloat.mul x x;
  fdivn := fun x n => PrimFloat.div x (of_count n);
  flt := PrimFloat.ltb;
  fisnan := PrimFloat.is_nan;
  fisfinite := PrimFloat.is_finite;
|}.

(** The place of a float on the line, for the floats that have one: its
    class from minus infinity to plus infinity, then its exponent and its
    mantissa, both signed as the float is. *)
Definition sf_key (x : spec_float) : option (Z * Z * Z) :=
  match x with
  | S754_nan => None
  | S754_infinity true => Some (-2, 0, 0)%Z
  | S754_infinity false => Some (2, 0, 0)%Z
  | S754_zero _ => Some (0, 0, 0)%Z
  | S754_finite true m e => Some (-1, - e, - Z.pos m)%Z
  | S754_finite false m e => Some (1, e, Z.pos m)%Z
  end.

Definition key_lt (a b : Z * Z * Z) : Prop :=
  (a.1.1 < b.1.1 \/ a.1.1 = b.1.1 /\
     (a.1.2 < b.1.2 \/ a.1.2 = b.1.2 /\ a.2 < b.2))%Z.

End Binary64.

(** Exact arithmetic on the rationals with one more value, not-a-number:
    the arithmetic of which binary64 is the rounding. *)
Module Exact.

Definition num : Type := option Qc.

Definition lift2 (f : Qc -> Qc -> Qc) (x y : num) : num :=
  match x, y with
  | Some a, Some b => Some (f a b)
  | _, _ => None
  end.

Definition ltb (x y : num) : bool :=
  match x, y with
  | Some a, Some b =>
      match (a ?= b)%Qc with
      | Lt => true
      | _ => false
      end
  | _, _ => false
  end.

Definition of_count (n : nat) : Qc := Q2Qc (inject_Z (Z.of_nat n)).

#[global] Instance ops : FloatOps num := {|
  fzero := Some (Q2Qc 0);
  fnan := None;
  fadd := lift2 Qcplus;
  fsub := lift2 Qcminus;
  fsq := fun x => lift2 Qcmult x x;
  fdivn := fun x n => lift2 Qcdiv x (Some (of_count n));
  flt := ltb;
  fisnan := fun x => if x is None then true else false;
  fisfinite := fun x => if x is None then false else true;
|}.

Definition of_Z (z : Z) : num := Some (Q2Qc (inject_Z z)).

End Exact.

(** A linear congruential generator as random source; [random.sample]
    selects as CPython does for a small population, moving the last live
    element of a pool into the place of the one drawn. *)
Module Lcg.

Definition next (s : N) : N :=
  ((1103515245 * s + 12345) mod 2147483648)%N.

Definition below (n : nat) (s : N) : nat * N :=
  let s' := next s in (N.to_nat (s' mod N.of_nat n), s').

Fixpoint pool_draw (k : nat) (pool : list nat) (live : nat) (s : N)
    : list nat * N :=
  match k with
  | O => ([], s)
  | S k' =>
      let '(j, s1) := below live s in
      let x := pool !!! j in
      let pool' := <[j := pool !!! (live - 1)]> pool in
      let '(xs, s2) := pool_draw k' pool' (live - 1) s1 in
      (x :: xs, s2)
  end.

Definition sample (n k : nat) (s : N) : list nat * N :=
  pool_draw k (seq 0 n) n s.

#[global] Instance source : RandomSource N := {|
  rand_seed := fun seed => (Z.to_N (Z.abs seed) mod 2147483648)%N;
  rand_below := below;
  rand_sample := sample;
|}.

End Lcg.

(** ** Notions the statements use *)

Section notions.
Context {F : Type} `{FloatOps F}.

(** The points assigned to the cluster [c], in the order of the list. *)
Definition members (c : nat) (points : list (@point F))
    (assignments : list nat) : list (@point F) :=
  (filter (fun pc : @point F * nat => pc.2 = c) (zip points assignments)).*1.

Definition padd (a b : @point F) : @point F :=
  (fadd a.1 b.1, fadd a.2 b.2).

(** The coordinates of [ps] summed from left to right onto [init]. *)
Definition psum (init : @point F) (ps : list (@point F)) : @point F :=
  foldl padd init ps.

(** The centroid of the cluster [c]: not-a-number when no point is
    assigned to it, the mean of its members otherwise. *)
Definition cluster_mean (points : list (@point F)) (assignments : list nat)
    (c : nat) : @point F :=
  let ms := members c points assignments in
  if decide (length ms = 0) then (fnan, fnan)
  else
    let sm := psum (fzero, fzero) ms in
    (fdivn sm.1 (length ms), fdivn sm.2 (length ms)).






(** What the re-seeding loop makes of a recomputed centroid [c]: a point
    of the group when [c] is undefined, [c] itself otherwise. *)
Definition reseeded (points : list (@point F)) (c c' : @point F) : Prop :=
  if point_isnan c then c' ∈ points else c' = c.

(** The caller's obligation: a cluster count between 1 and the number of
    points when there are points, and no cluster when there is none. *)
Definition engine_pre (points : list (@point F)) (k : Z) : Prop :=
  (points ≠ [] /\ (1 <= k <= Z.of_nat (length points))%Z) \/
  (points = [] /\ k = 0%Z).


(** The pass [cy] is a pass of the loop over [points] with [k] clusters:
    each point is given the index the scan computes from the centroids
    the pass starts with, the centroids are recomputed as the means of the
    clusters, each undefined one is replaced by a point of the group, and
    [changed] tells whether an assignment changed or a centroid was
    re-seeded. *)
Definition pass_of (points : list (@point F)) (k : Z) (cy : @cycle F)
    : Prop :=
  mapM (fun p => nearest p (cy_start_centroids cy) k) points
    = Ok (cy_assignments cy) /\
  length (cy_assignments cy) = length points /\
  Forall (fun a => a < Z.to_nat k) (cy_assignments cy) /\
  cy_moved cy = bool_decide (cy_start_assignments cy ≠ cy_assignments cy) /\
  cy_recomputed cy
    = cluster_mean points (cy_assignments cy) <$> seq 0 (Z.to_nat k) /\
  Forall2 (reseeded points) (cy_recomputed cy) (cy_centroids cy) /\
  cy_changed cy = cy_moved cy || existsb point_isnan (cy_recomputed cy).

(** The runs of the loop [for _ in range(max_iter)]: with [fuel] passes
    left, from the assignments and centroids on the left, the loop makes
    the passes of the log and ends with those on the right.  It stops when
    no pass is left or after a pass that leaves [changed] unset. *)
Inductive run (points : list (@point F)) (k : Z)
    : nat -> list nat -> list (@point F) -> list (@cycle F) ->
      list nat -> list (@point F) -> Prop :=
  | run_exhausted assignments centroids :
      run points k 0 assignments centroids [] assignments centroids
  | run_converged fuel assignments centroids cy :
      pass_of points k cy ->
      cy_start_assignments cy = assignments ->
      cy_start_centroids cy = centroids ->
      cy_changed cy = false ->
      run points k (S fuel) assignments centroids [cy]
        (cy_assignments cy) (cy_centroids cy)
  | run_continued fuel assignments centroids cy log assignments' centroids' :
      pass_of points k cy ->
      cy_start_assignments cy = assignments ->
      cy_start_centroids cy = centroids ->
      cy_changed cy = true ->
      run points k fuel (cy_assignments cy) (cy_centroids cy) log
        assignments' centroids' ->
      run points k (S fuel) assignments centroids (cy :: log)
        assignments' centroids'.



End notions.

(** ** Notions the statements about the batch use *)

(** The elements of a list in the order of their first occurrence. *)
Definition seen_step {A : Type} `{EqDecision A} (seen : list A) (x : A)
    : list A :=
  if decide (x ∈ seen) then seen else seen ++ [x].

Definition first_seen {A : Type} `{EqDecision A} (l : list A) : list A :=
  foldl seen_step [] l.

(** The rows of a key, in the order of the input. *)
Definition rows_of_key (rows : list run_row) (key : group_key)
    : list run_row :=
  filter (fun r => key_of r = key) rows.



Section batch_notions.
Context {F : Type} `{FloatOps F} `{FloatText F}.
Implicit Types (key : group_key) (assignments : list nat).
Implicit Types (centroids : list (@point F)).

(** Both coordinates of the row are texts that [float] accepts. *)
Definition row_numeric (r : run_row) : Prop :=
  is_Some (float_of_string (home_lat r)) /\
  is_Some (float_of_string (home_lng r)).


#[global] Instance row_numeric_dec (r : run_row) : Decision (row_numeric r).
Proof. unfold row_numeric. apply _. Defined.




End batch_notions.

(** ** Text for the exact numbers *)

(** Text for the exact numbers, to run [main] on them.  [read] is
    [float(s)] restricted to the plain decimal numerals: an optional
    minus sign, one digit or more, and optionally a point and further
    digits; it reads them exactly and refuses any other text, the other
    spellings [float] accepts included.  [write] is [f"{x:.6f}"],
    rounding half to even; the exact numbers have no negative zero, so a
    negative number that rounds to zero is written without a sign. *)
Module ExactText.

Definition digit (c : Ascii.ascii) : option Z :=
  let n := Z.of_N (Ascii.N_of_ascii c) in
  if decide (48 <= n <= 57)%Z then Some (n - 48)%Z else None.

Fixpoint digits (s : string) (acc : Z) : option Z :=
  match s with
  | EmptyString => Some acc
  | String c s' => d ← digit c; digits s' (10 * acc + d)%Z
  end.

Fixpoint split_point (s : string) : string * option string :=
  match s with
  | EmptyString => (EmptyString, None)
  | String c s' =>
      if decide (String c EmptyString = ".") then (EmptyString, Some s')
      else let '(a, b) := split_point s' in (String c a, b)
  end.

Definition unsigned (s : string) : option Q :=
  let '(i, f) := split_point s in
  if decide (i = EmptyString) then None
  else
    n ← digits i 0;
    match f with
    | None => Some (inject_Z n)
    | Some f =>
        m ← digits f 0;
        Some (inject_Z n
              + inject_Z m / inject_Z (10 ^ Z.of_nat (String.length f)))%Q
    end.

Definition read (s : string) : option Exact.num :=
  match s with
  | EmptyString => None
  | String c s' =>
      if decide (String c EmptyString = "-")
      then q ← unsigned s'; Some (Some (Q2Qc (- q)))
      else q ← unsigned s; Some (Some (Q2Qc q))
  end.

Definition round_half_even (q : Q) : Z :=
  let f := Qfloor q in
  match Qcompare (q - inject_Z f) (1 # 2) with
  | Lt => f
  | Gt => (f + 1)%Z
  | Eq => if Z.even f then f else (f + 1)%Z
  end.

Fixpoint zeros (n : nat) : string :=
  match n with
  | 0 => EmptyString
  | S n' => "0" +:+ zeros n'
  end.

Definition write (x : Exact.num) : string :=
  match x with
  | None => "nan"
  | Some q =>
      let n := round_half_even (this q * inject_Z 1000000) in
      let a := Z.abs n in
      let frac := pretty (a mod 1000000)%Z in
      (if (n <? 0)%Z then "-" else EmptyString)
        +:+ pretty (a / 1000000)%Z +:+ "."
        +:+ zeros (6 - String.length frac) +:+ frac
  end.

#[global] Instance text : FloatText Exact.num := {|
  float_of_string := read;
  format_6f := write;
|}.

End ExactText.

(** ** Inputs of the concrete runs *)

(** Two students at the same place, as many clusters as students. *)
Definition twins : list (float * float) := [(1, 2); (1, 2)]%float.


(** Five students in two neighbourhoods. *)
Definition five : list (float * float) :=
  [(0, 0); (2, 0); (5, 5); (5, 6); (9, 9)]%float.



(** * Properties *)

(** ** The cluster-count selector *)

(** The ceiling of a quotient, in the spec's words: the least integer [K]
    with [n <= K * m]. *)
Definition ceil_of_quotient (n m K : Z) : Prop :=
  (n <= K * m /\ forall K', n <= K' * m -> K <= K')%Z.

Lemma math_ceil_true_div (n m : Z) :
  (0 < m)%Z -> math_ceil (true_div n m) = (- ((- n) / m))%Z.
Proof.
  intros Hm. unfold math_ceil, true_div, Qceiling.
  f_equal.
  assert (Hq : (- (inject_Z n / inject_Z m) == (- n) # (Z.to_pos m))%Q).
  { unfold Qdiv, Qinv, inject_Z. simpl.
    destruct m as [|p|p]; try lia. simpl.
    unfold Qeq, Qopp, Qmult. simpl. lia. }
  rewrite (Qfloor_comp _ _ Hq). unfold Qfloor.
  rewrite Z2Pos.id by lia. reflexivity.
Qed.

Lemma ceil_div_spec (n m : Z) :
  (0 < m)%Z -> ceil_of_quotient n m (- ((- n) / m))%Z.
Proof.
  intros Hm. unfold ceil_of_quotient.
  pose proof (Z.div_mod (- n) m ltac:(lia)) as Hdm.
  pose proof (Z.mod_pos_bound (- n) m Hm) as Hb.
  split; [nia|].
  intros K' HK'.
  assert (- K' <= - n / m)%Z; [|lia].
  apply Z.div_le_lower_bound; nia.
Qed.



(** The cluster counts of the spec's scenarios: 25, 5 and 1 students for a
    capacity of 12. *)
Example choose_k_scenarios :
  choose_k 25 12 = 3%Z /\ choose_k 5 12 = 1%Z /\ choose_k 1 12 = 1%Z.
Proof. by vm_compute. Qed.

(** ** Fallible computations and list accesses *)

Lemma res_bind_ok {A B : Type} (m : res A) (f : A -> res B) (b : B) :
  m ≫= f = Ok b <-> exists a, m = Ok a /\ f a = Ok b.
Proof.
  destruct m as [a|e]; simpl; split.
  - intros Hf. by exists a.
  - by intros (a' & [= <-] & Hf).
  - done.
  - by intros (a' & ? & _).
Qed.

Lemma py_get_ok {A : Type} (l : list A) (i : nat) (x : A) :
  py_get l i = Ok x <-> l !! i = Some x.
Proof. unfold py_get. destruct (l !! i); naive_solver. Qed.

Lemma py_get_lt {A : Type} (l : list A) (i : nat) :
  i < length l -> exists x, l !! i = Some x /\ py_get l i = Ok x.
Proof.
  intros Hi. destruct (lookup_lt_is_Some_2 l i Hi) as [x Hx].
  exists x. by rewrite py_get_ok.
Qed.

Lemma py_set_lt {A : Type} (l : list A) (i : nat) (x : A) :
  i < length l -> py_set l i x = Ok (<[i := x]> l).
Proof. intros Hi. unfold py_set. by rewrite decide_True. Qed.

Lemma mapM_res_ok {A B : Type} (f : A -> res B) (l : list A) (ks : list B) :
  mapM f l = Ok ks <-> Forall2 (fun x y => f x = Ok y) l ks.
Proof.
  revert ks. induction l as [|x l IH]; intros ks; simpl.
  - split; [intros [= <-]; constructor | by inversion 1].
  - rewrite res_bind_ok. split.
    + intros (y & Hy & Hrest). apply res_bind_ok in Hrest.
      destruct Hrest as (k & Hk & [= <-]). constructor; [done|by apply IH].
    + inversion 1 as [|? y ? k Hy Hk]; subst. exists y. split; [done|].
      apply res_bind_ok. exists k. split; [by apply IH|done].
Qed.

Lemma mapM_res_total {A B : Type} (f : A -> res B) (l : list A) :
  Forall (fun x => is_ok (f x)) l -> is_ok (mapM f l).
Proof.
  induction 1 as [|x l [y Hy] _ [k Hk]]; [by exists []|].
  exists (y :: k). apply mapM_res_ok. constructor; [done|by apply mapM_res_ok].
Qed.

Lemma mapM_res_map {A B : Type} (f : A -> res B) (g : A -> B) (l : list A) :
  Forall (fun x => f x = Ok (g x)) l -> mapM f l = Ok (g <$> l).
Proof.
  intros Hl. apply mapM_res_ok. induction Hl; constructor; done.
Qed.

Lemma take_S_eq {A : Type} (l l' : list A) (i : nat) :
  take (S i) l = take (S i) l' -> take i l = take i l'.
Proof.
  intros E. rewrite <-(Nat.min_l i (S i)) by lia.
  by rewrite <-!take_take, E.
Qed.


(** ** The steps of one pass *)

Section steps.
Context {F : Type} `{FloatOps F}.

Lemma members_cons (c c0 : nat) (p : @point F) points assignments :
  members c (p :: points) (c0 :: assignments) =
    if decide (c0 = c) then p :: members c points assignments
    else members c points assignments.
Proof.
  unfold members. simpl. rewrite filter_cons. simpl.
  by destruct (decide (c0 = c)).
Qed.

Lemma members_nil_l (c : nat) assignments :
  members c ([] : list (@point F)) assignments = [].
Proof. done. Qed.

Lemma members_nil_r (c : nat) (points : list (@point F)) :
  members c points [] = [].
Proof. by destruct points. Qed.

(** The accumulation loop adds each point to the sum and to the count of
    its cluster, provided each cluster index is a position of the lists. *)
Lemma accumulate_spec (points : list (@point F)) (assignments : list nat)
    (sums : list (@point F)) (counts : list nat) :
  length sums = length counts ->
  Forall (fun c => c < length sums) assignments ->
  exists sums' counts',
    accumulate (zip points assignments) sums counts = Ok (sums', counts') /\
    length sums' = length sums /\ length counts' = length counts /\
    (forall c, sums' !! c =
       (fun sc => psum sc (members c points assignments)) <$> sums !! c) /\
    (forall c, counts' !! c =
       (fun n => n + length (members c points assignments)) <$> counts !! c).
Proof.
  revert assignments sums counts.
  induction points as [|p points IH]; intros assignments sums counts Hlen Hall.
  { exists sums, counts. split_and!; try done.
    - intros c. by destruct (sums !! c).
    - intros c. rewrite members_nil_l. simpl.
      destruct (counts !! c) as [n|]; simpl; [f_equal; lia|done]. }
  destruct assignments as [|c0 assignments].
  { exists sums, counts. split_and!; try done.
    - intros c. rewrite members_nil_r. by destruct (sums !! c).
    - intros c. rewrite members_nil_r. simpl.
      destruct (counts !! c) as [n|]; simpl; [f_equal; lia|done]. }
  apply Forall_cons in Hall as [Hc0 Hall]. simpl.
  destruct (py_get_lt sums c0 Hc0) as (sc & Hsc & ->). simpl.
  rewrite py_set_lt by done. simpl.
  destruct (py_get_lt counts c0 ltac:(lia)) as (n & Hn & ->). simpl.
  rewrite py_set_lt by lia. simpl.
  destruct (IH assignments (<[c0 := (fadd sc.1 p.1, fadd sc.2 p.2)]> sums)
              (<[c0 := n + 1]> counts))
    as (sums' & counts' & Hacc & Hls & Hlc & Hs & Hc).
  { by rewrite !length_insert. }
  { by rewrite length_insert. }
  rewrite length_insert in Hls. rewrite length_insert in Hlc.
  exists sums', counts'. split_and!; try done.
  - intros c. rewrite Hs, members_cons.
    destruct (decide (c0 = c)) as [<-|Hne].
    + rewrite list_lookup_insert_eq by done. rewrite Hsc. done.
    + by rewrite list_lookup_insert_ne.
  - intros c. rewrite Hc, members_cons.
    destruct (decide (c0 = c)) as [<-|Hne].
    + rewrite list_lookup_insert_eq by lia. rewrite Hn. simpl.
      f_equal. lia.
    + by rewrite list_lookup_insert_ne.
Qed.

(** [recompute_centroids] returns the centroid of each of the [k]
    clusters. *)
Lemma recompute_centroids_spec (points : list (@point F))
    (assignments : list nat) (k : Z) :
  Forall (fun c => c < Z.to_nat k) assignments ->
  recompute_centroids points assignments k =
    Ok (cluster_mean points assignments <$> seq 0 (Z.to_nat k)).
Proof.
  intros Hall. unfold recompute_centroids.
  destruct (accumulate_spec points assignments
              (replicate (Z.to_nat k) (fzero, fzero))
              (replicate (Z.to_nat k) 0))
    as (sums & counts & -> & Hls & Hlc & Hs & Hc).
  { by rewrite !length_replicate. }
  { by rewrite length_replicate. }
  simpl. unfold py_range. apply mapM_res_map.
  apply Forall_forall. intros c Hin%elem_of_seq.
  unfold centroid_of, cluster_mean.
  assert (counts !! c = Some (length (members c points assignments))) as Hcc.
  { rewrite Hc, lookup_replicate_2 by lia. done. }
  assert (sums !! c = Some (psum (fzero, fzero) (members c points assignments)))
    as Hsc.
  { rewrite Hs, lookup_replicate_2 by lia. done. }
  apply py_get_ok in Hcc as ->. simpl.
  destruct (decide (length (members c points assignments) = 0)); [done|].
  apply py_get_ok in Hsc as ->. done.
Qed.

(** The scan of the assign step returns the index it started from or one
    of those it visits. *)
Lemma scan_total (p : @point F) (centroids : list (@point F))
    (cs : list nat) (b : nat) (d : F) :
  Forall (fun c => c < length centroids) cs ->
  exists b' d', scan p centroids cs b d = Ok (b', d') /\ (b' = b \/ b' ∈ cs).
Proof.
  revert b d. induction cs as [|c cs IH]; intros b d Hcs; simpl.
  { exists b, d. auto. }
  apply Forall_cons in Hcs as [Hc Hcs].
  destruct (py_get_lt centroids c Hc) as (cc & _ & ->). simpl.
  destruct (flt (euclidean2 p cc) d).
  - destruct (IH c (euclidean2 p cc) Hcs) as (b' & d' & -> & Hb').
    exists b', d'. split; [done|]. right. by apply elem_of_cons.
  - destruct (IH b d Hcs) as (b' & d' & -> & Hb').
    exists b', d'. split; [done|].
    destruct Hb' as [?|?]; [by left|right; apply elem_of_cons; by right].
Qed.

Lemma nearest_total (p : @point F) (centroids : list (@point F)) (k : Z) :
  length centroids = Z.to_nat k -> (1 <= k)%Z ->
  exists b, nearest p centroids k = Ok b /\ b < Z.to_nat k.
Proof.
  intros Hlen Hk. unfold nearest.
  destruct (py_get_lt centroids 0 ltac:(lia)) as (c0 & _ & ->). simpl.
  destruct (scan_total p centroids (py_range1 k) 0 (euclidean2 p c0))
    as (b & d & -> & Hb).
  { apply Forall_forall. intros c Hc%elem_of_seq. lia. }
  exists b. split; [done|].
  destruct Hb as [->|Hb%elem_of_seq]; lia.
Qed.



(** The assign loop stores at each position the index computed for its
    point, and sets [changed] when one of them differs from the index
    stored before. *)
Lemma assign_spec (points : list (@point F)) (centroids : list (@point F))
    (k : Z) (i : nat) (assignments : list nat) (changed : bool)
    (bs : list nat) :
  length assignments = i + length points ->
  mapM (fun p => nearest p centroids k) points = Ok bs ->
  assign (zip (seq i (length points)) points) centroids k assignments changed
  = Ok (take i assignments ++ bs,
        changed || bool_decide (drop i assignments ≠ bs)).
Proof.
  revert i assignments changed bs.
  induction points as [|p points IH]; intros i assignments changed bs Hlen Hbs.
  { injection Hbs as <-. simpl in *.
    rewrite drop_ge, take_ge, app_nil_r by lia.
    rewrite bool_decide_false by naive_solver. by rewrite orb_false_r. }
  simpl in Hbs. apply res_bind_ok in Hbs as (b & Hb & Hbs).
  apply res_bind_ok in Hbs as (bs' & Hbs' & [= <-]).
  simpl in *. rewrite Hb. simpl.
  destruct (py_get_lt assignments i ltac:(lia)) as (a & Ha & ->). simpl.
  rewrite (drop_S _ _ _ Ha).
  destruct (decide (a ≠ b)) as [Hab|Hab].
  - rewrite py_set_lt by lia. simpl.
    rewrite (IH (S i) _ true bs') by (rewrite ?length_insert; done || lia).
    assert (take (S i) (<[i:=b]> assignments) = take i assignments ++ [b])
      as ->.
    { rewrite (take_S_r _ _ b) by (apply list_lookup_insert_eq; lia).
      by rewrite take_insert_ge by lia. }
    rewrite <-app_assoc. simpl.
    rewrite (bool_decide_true (_ :: _ ≠ _)) by congruence.
    by rewrite orb_true_r.
  - apply dec_stable in Hab as ->.
    rewrite (IH (S i) _ changed bs') by (done || lia).
    rewrite (take_S_r _ _ _ Ha), <-app_assoc. simpl. do 3 f_equal.
    apply bool_decide_ext. naive_solver.
Qed.

Lemma assign_enumerate (points : list (@point F))
    (centroids : list (@point F)) (k : Z) (assignments bs : list nat) :
  length assignments = length points ->
  mapM (fun p => nearest p centroids k) points = Ok bs ->
  assign (enumerate points) centroids k assignments false
  = Ok (bs, bool_decide (assignments ≠ bs)).
Proof.
  intros Hlen Hbs. unfold enumerate.
  by rewrite (assign_spec _ _ _ 0 _ _ bs).
Qed.

End steps.

(** ** The passes of the loop *)

Section passes.
Context {F : Type} `{FloatOps F} {G : Type} `{RandomSource G}.

Lemma py_choice_spec `{!RandomLaws G} {A : Type} (l : list A) (s : G) :
  l ≠ [] ->
  exists x, py_choice l s = Ok (x, (rand_below (length l) s).2) /\ x ∈ l.
Proof.
  intros Hl. unfold py_choice. destruct l as [|x0 l0] eqn:El; [done|].
  rewrite <-El. clear Hl.
  pose proof (rand_below_lt (length l) s) as Hlt.
  destruct (rand_below (length l) s) as [j s'] eqn:Ej. simpl in *.
  destruct (py_get_lt l j) as (x & Hx & ->).
  { apply Hlt. subst l. simpl. lia. }
  exists x. split; [done|]. by eapply list_elem_of_lookup_2.
Qed.

(** The re-seeding loop over the indices [i, i + m): what precedes them is
    left as it is, each undefined centroid among them becomes a point. *)
Lemma reseed_spec `{!RandomLaws G} (points : list (@point F)) (m i : nat)
    (centroids : list (@point F)) (changed : bool) (s : G) :
  m = 0 \/ points ≠ [] ->
  i + m = length centroids ->
  exists centroids' s',
    reseed (seq i m) points centroids changed s
      = Ok (centroids', changed || existsb point_isnan (drop i centroids), s')
    /\ length centroids' = length centroids
    /\ take i centroids' = take i centroids
    /\ Forall2 (reseeded points) (drop i centroids) (drop i centroids').
Proof.
  revert i centroids changed s.
  induction m as [|m IH]; intros i centroids changed s Hpts Hlen.
  { exists centroids, s. simpl. rewrite !drop_ge by lia. simpl.
    rewrite orb_false_r. split_and!; done || constructor. }
  destruct Hpts as [|Hpts]; [done|]. simpl.
  destruct (py_get_lt centroids i ltac:(lia)) as (cc & Hcc & ->). simpl.
  rewrite (drop_S _ _ _ Hcc). simpl.
  destruct (point_isnan cc) eqn:Hnan.
  - destruct (py_choice_spec points s Hpts) as (p & -> & Hp). simpl.
    rewrite py_set_lt by lia. simpl.
    destruct (IH (S i) (<[i := p]> centroids) true
                (rand_below (length points) s).2)
      as (centroids' & s' & Hrs & Hl & Ht & Hd).
    { by right. } { rewrite length_insert. lia. }
    rewrite length_insert in Hl.
    rewrite drop_insert_lt in Hd by lia.
    assert (centroids' !! i = Some p) as Hi.
    { rewrite <-(lookup_take_lt centroids' (S i) i), Ht by lia.
      rewrite lookup_take_lt by lia. apply list_lookup_insert_eq. lia. }
    exists centroids', s'. rewrite Hrs. rewrite orb_true_r. split_and!.
    + done.
    + done.
    + rewrite (take_S_eq _ _ _ Ht). apply take_insert_ge. lia.
    + rewrite (drop_S _ _ _ Hi). constructor; [|done].
      unfold reseeded. by rewrite Hnan.
  - destruct (IH (S i) centroids changed s)
      as (centroids' & s' & Hrs & Hl & Ht & Hd).
    { by right. } { lia. }
    assert (centroids' !! i = Some cc) as Hi.
    { rewrite <-(lookup_take_lt centroids' (S i) i), Ht by lia.
      by rewrite lookup_take_lt by lia. }
    exists centroids', s'. rewrite Hrs. split_and!.
    + done.
    + done.
    + apply (take_S_eq _ _ _ Ht).
    + rewrite (drop_S _ _ _ Hi). constructor; [|done].
      unfold reseeded. by rewrite Hnan.
Qed.

(** The re-seeding loop draws nothing when every centroid is defined. *)
Lemma reseed_quiet (points : list (@point F)) (cs : list nat)
    (centroids : list (@point F)) (changed : bool) (s : G) :
  Forall (fun c => c < length centroids) cs ->
  existsb point_isnan centroids = false ->
  reseed cs points centroids changed s = Ok (centroids, changed, s).
Proof.
  intros Hcs Hnan. induction Hcs as [|c cs Hc _ IH]; [done|]. simpl.
  destruct (py_get_lt centroids c Hc) as (cc & Hcc & ->). simpl.
  assert (point_isnan cc = false) as ->; [|done].
  destruct (point_isnan cc) eqn:E; [|done].
  assert (existsb point_isnan centroids = true); [|congruence].
  apply existsb_exists. exists cc. split; [|done].
  apply list_elem_of_In. by eapply list_elem_of_lookup_2.
Qed.

Lemma nearest_all_total (points centroids : list (@point F)) (k : Z) :
  length centroids = Z.to_nat k -> points = [] \/ (1 <= k)%Z ->
  exists bs, mapM (fun p => nearest p centroids k) points = Ok bs /\
    length bs = length points /\ Forall (fun b => b < Z.to_nat k) bs.
Proof.
  intros Hlen Hk. induction points as [|p points IH].
  { exists []. split_and!; done || constructor. }
  destruct Hk as [|Hk]; [done|].
  destruct (nearest_total p centroids k Hlen Hk) as (b & Hb & Hbk).
  destruct IH as (bs & Hbs & Hl & Hall); [by right|].
  exists (b :: bs). simpl. rewrite Hb, Hbs. simpl.
  split_and!; [done|lia|by constructor].
Qed.

Lemma engine_pre_nearest (points : list (@point F)) (k : Z) :
  engine_pre points k -> points = [] \/ (1 <= k)%Z.
Proof. intros [[_ ?]|[? _]]; [right; lia|by left]. Qed.

Lemma engine_pre_reseed (points : list (@point F)) (k : Z) :
  engine_pre points k -> Z.to_nat k = 0 \/ points ≠ [].
Proof. intros [[? _]|[_ ->]]; [by right|by left]. Qed.

(** One pass of the loop, from assignments and centroids of the right
    lengths. *)
Lemma kmeans_cycle_spec `{!RandomLaws G} (points : list (@point F)) (k : Z)
    (assignments : list nat) (centroids : list (@point F)) (s : G) :
  engine_pre points k ->
  length centroids = Z.to_nat k ->
  length assignments = length points ->
  exists cy s',
    kmeans_cycle points k assignments centroids s = Ok (cy, s') /\
    pass_of points k cy /\
    cy_start_assignments cy = assignments /\
    cy_start_centroids cy = centroids /\
    length (cy_centroids cy) = Z.to_nat k.
Proof.
  intros Hpre Hlc Hla. unfold kmeans_cycle.
  destruct (nearest_all_total points centroids k Hlc (engine_pre_nearest _ _ Hpre))
    as (bs & Hbs & Hlb & Hall).
  rewrite (assign_enumerate _ _ _ _ bs) by done. simpl.
  rewrite recompute_centroids_spec by done. simpl.
  set (centroids1 := cluster_mean points bs <$> seq 0 (Z.to_nat k)).
  destruct (reseed_spec points (Z.to_nat k) 0 centroids1
              (bool_decide (assignments ≠ bs)) s (engine_pre_reseed _ _ Hpre))
    as (centroids2 & s' & Hrs & Hl2 & _ & Hf2).
  { unfold centroids1. by rewrite length_fmap, length_seq. }
  unfold py_range. rewrite Hrs. simpl. rewrite !drop_0 in *.
  eexists _, s'. split; [done|]. simpl.
  split; [|split_and!; try done].
  - unfold pass_of. simpl. split_and!; done.
  - rewrite Hl2. unfold centroids1. by rewrite length_fmap, length_seq.
Qed.

(** The loop runs as [run] describes. *)
Lemma kmeans_loop_spec `{!RandomLaws G} (fuel : nat)
    (points : list (@point F)) (k : Z)
    (assignments : list nat) (centroids : list (@point F)) (s : G) :
  engine_pre points k ->
  length centroids = Z.to_nat k ->
  length assignments = length points ->
  exists assignments' centroids' s' log,
    kmeans_loop fuel points k assignments centroids s
      = Ok (assignments', centroids', s', log) /\
    run points k fuel assignments centroids log assignments' centroids'.
Proof.
  intros Hpre. revert assignments centroids s.
  induction fuel as [|fuel IH]; intros assignments centroids s Hlc Hla.
  { eexists _, _, _, _. split; [done|]. constructor. }
  simpl.
  destruct (kmeans_cycle_spec points k assignments centroids s Hpre Hlc Hla)
    as (cy & s1 & -> & Hpass & Hsa & Hsc & Hlcy). simpl.
  destruct (cy_changed cy) eqn:Hch; simpl.
  - destruct (IH (cy_assignments cy) (cy_centroids cy) s1)
      as (assignments' & centroids' & s' & log & -> & Hrun).
    { done. } { apply Hpass. }
    simpl. eexists _, _, _, _. split; [done|].
    by eapply run_continued.
  - eexists _, _, _, _. split; [done|]. by eapply run_converged.
Qed.

Lemma in_points_lookup {A : Type} (l : list A) (js : list nat) (xs : list A) :
  mapM (py_get l) js = Ok xs -> Forall (fun x => x ∈ l) xs.
Proof.
  intros Hxs%mapM_res_ok. induction Hxs as [|j x js xs Hx%py_get_ok _ IH].
  - constructor.
  - constructor; [by eapply list_elem_of_lookup_2|done].
Qed.

(** The initial centroids: [k] points of the group, the points themselves
    in order when [k] is at least their number. *)
Lemma init_centroids_spec `{!RandomLaws G} (points : list (@point F))
    (k : Z) (s : G) :
  engine_pre points k ->
  exists centroids s',
    init_centroids points k s = Ok (centroids, s') /\
    length centroids = Z.to_nat k /\
    Forall (fun c => c ∈ points) centroids /\
    ((Z.of_nat (length points) <= k)%Z -> centroids = points /\ s' = s).
Proof.
  intros Hpre. unfold init_centroids.
  destruct (decide (Z.of_nat (length points) <= k)%Z) as [Hge|Hlt].
  { exists points, s. split_and!; [done| |by apply Forall_forall|done].
    destruct Hpre as [[_ ?]|[-> ->]]; [lia|done]. }
  unfold py_sample.
  destruct Hpre as [[Hne Hk]|[-> ->]]; [|done].
  rewrite decide_True by lia.
  pose proof (rand_sample_length (length points) (Z.to_nat k) s ltac:(lia))
    as Hlen.
  pose proof (rand_sample_lt (length points) (Z.to_nat k) s ltac:(lia))
    as Hjs.
  destruct (rand_sample (length points) (Z.to_nat k) s) as [js s'].
  simpl in *.
  destruct (mapM_res_total (py_get points) js) as [cs Hcs].
  { eapply Forall_impl; [exact Hjs|]. intros j Hj. simpl in Hj.
    destruct (py_get_lt points j Hj) as (x & _ & Hx). by exists x. }
  rewrite Hcs. simpl. exists cs, s'. split_and!; [done| | |lia].
  - apply mapM_res_ok, Forall2_length in Hcs. lia.
  - by eapply in_points_lookup.
Qed.

(** [kmeans] initialises the centroids, then runs the loop. *)
Lemma kmeans_log_spec `{!RandomLaws G} (points : list (@point F))
    (k max_iter : Z) (s : G) :
  engine_pre points k ->
  exists centroids0 assignments centroids s' log,
    kmeans_log points k max_iter s = Ok (assignments, centroids, s', log) /\
    kmeans points k max_iter s = Ok (assignments, centroids, s') /\
    length centroids0 = Z.to_nat k /\
    Forall (fun c => c ∈ points) centroids0 /\
    ((Z.of_nat (length points) <= k)%Z -> centroids0 = points) /\
    run points k (Z.to_nat max_iter) (replicate (length points) 0) centroids0
      log assignments centroids.
Proof.
  intros Hpre. unfold kmeans, kmeans_log.
  destruct (init_centroids_spec points k s Hpre)
    as (centroids0 & s0 & -> & Hl0 & Hin0 & Hall0). simpl.
  destruct (kmeans_loop_spec (Z.to_nat max_iter) points k
              (replicate (length points) 0) centroids0 s0 Hpre Hl0)
    as (assignments & centroids & s' & log & -> & Hrun).
  { by rewrite length_replicate. }
  simpl. eexists centroids0, _, _, _, _. split_and!; try done.
  intros Hk. by apply Hall0.
Qed.




End passes.

(** ** The runs of the loop *)

Section runs.
Context {F : Type} `{FloatOps F}.
Implicit Types (points centroids : list (@point F)) (cy : @cycle F).
Implicit Types (log : list (@cycle F)) (assignments : list nat).












End runs.

Section runs_defined.
Context {F : Type} `{FloatOps F} `{!FloatOrder F}.
Implicit Types (points centroids : list (@point F)) (cy : @cycle F).







End runs_defined.

(** ** The cluster sizes *)



(** ** The instances meet what is assumed of them *)

Ltac sf_no := split;
  [discriminate
  |intros (a & b & Ha & Hb & Hlt); simplify_eq; simpl in *; lia].
Ltac sf_yes := split;
  [intros _; eexists _, _; split_and!; [done..|simpl; lia]|done].

(** [<] on binary64 is the order of the keys. *)
Lemma SFltb_key (x y : spec_float) :
  SFltb x y = true <->
  exists a b, Binary64.sf_key x = Some a /\ Binary64.sf_key y = Some b /\
              Binary64.key_lt a b.
Proof.
  unfold SFltb, Binary64.key_lt.
  destruct x as [sx|sx| |sx mx ex], y as [sy|sy| |sy my ey]; simpl;
    try destruct sx; try destruct sy; simpl; try sf_no; try sf_yes.
  - change (Pos.compare_cont Eq mx my) with (Pos.compare mx my).
    destruct (Z.compare_spec ex ey); [destruct (Pos.compare_spec mx my)|..];
      simpl; try sf_no; try sf_yes.
  - change (Pos.compare_cont Eq mx my) with (Pos.compare mx my).
    destruct (Z.compare_spec ex ey); [destruct (Pos.compare_spec mx my)|..];
      simpl; try sf_no; try sf_yes.
Qed.

Lemma is_nan_key (x : float) :
  PrimFloat.is_nan x = true <-> Binary64.sf_key (Prim2SF x) = None.
Proof.
  unfold PrimFloat.is_nan. rewrite FloatAxioms.eqb_spec. unfold SFeqb.
  destruct (Prim2SF x) as [s|s| |s m e]; simpl; try destruct s; simpl;
    rewrite ?Z.compare_refl;
    try change (Pos.compare_cont Eq m m) with (Pos.compare m m);
    rewrite ?Pos.compare_refl; simpl; split; done.
Qed.

Lemma ltb_key (x y : float) :
  PrimFloat.ltb x y = true <->
  exists a b, Binary64.sf_key (Prim2SF x) = Some a /\
              Binary64.sf_key (Prim2SF y) = Some b /\ Binary64.key_lt a b.
Proof. rewrite ltb_spec. apply SFltb_key. Qed.

Lemma ltb_false_key (x y : float) :
  (forall a b, Binary64.sf_key (Prim2SF x) = Some a ->
               Binary64.sf_key (Prim2SF y) = Some b ->
               ~ Binary64.key_lt a b) ->
  PrimFloat.ltb x y = false.
Proof.
  intros Hno. destruct (PrimFloat.ltb x y) eqn:E; [|done].
  apply ltb_key in E as (a & b & Ha & Hb & Hlt). by destruct (Hno a b).
Qed.

#[global] Instance binary64_order : FloatOrder float.
Proof.
  split; simpl.
  - reflexivity.
  - intros x. unfold PrimFloat.is_finite. by destruct (PrimFloat.is_nan x).
  - intros x. apply ltb_false_key. intros a b Ha Hb.
    simplify_eq. unfold Binary64.key_lt. lia.
  - intros x y z (a & b & Ha & Hb & Hab)%ltb_key (b' & c & Hb' & Hc & Hbc)%ltb_key.
    apply ltb_key. simplify_eq. exists a, c. split_and!; [done..|].
    unfold Binary64.key_lt in *. lia.
  - intros x y Hx%is_nan_key. apply ltb_false_key. congruence.
  - intros x y Hy%is_nan_key. apply ltb_false_key. congruence.
  - intros x y z Hy (a & c & Ha & Hc & Hac)%ltb_key.
    destruct (Binary64.sf_key (Prim2SF y)) as [b|] eqn:Hb.
    + assert (Binary64.key_lt a b \/ Binary64.key_lt b c) as [?|?].
      { unfold Binary64.key_lt in *. lia. }
      * left. apply ltb_key. by exists a, b.
      * right. apply ltb_key. by exists b, c.
    + apply is_nan_key in Hb. congruence.
Qed.

(** The generator draws below its bound, and its pool holds positions of
    the population. *)
Lemma lcg_below_lt (n : nat) (s : N) : 0 < n -> (Lcg.below n s).1 < n.
Proof.
  intros Hn. unfold Lcg.below. simpl.
  pose proof (N.mod_lt (Lcg.next s) (N.of_nat n) ltac:(lia)). lia.
Qed.

Lemma lcg_pool_draw (n k : nat) (pool : list nat) (live : nat) (s : N) :
  k <= live -> live <= length pool -> Forall (fun j => j < n) pool ->
  length (Lcg.pool_draw k pool live s).1 = k /\
  Forall (fun j => j < n) (Lcg.pool_draw k pool live s).1.
Proof.
  revert pool live s. induction k as [|k IH]; intros pool live s Hk Hl Hpool.
  { split; [done|constructor]. }
  pose proof (lcg_below_lt live s ltac:(lia)) as Hj.
  unfold Lcg.below in Hj. simpl in *.
  set (j := N.to_nat (Lcg.next s `mod` N.of_nat live)) in *.
  assert (forall i, i < length pool -> pool !!! i < n) as Hin.
  { intros i Hi. rewrite Forall_lookup in Hpool. apply (Hpool i).
    by apply list_lookup_lookup_total_lt. }
  destruct (IH (<[j := pool !!! (live - 1)]> pool) (live - 1) (Lcg.next s))
    as [Hlen Hall].
  { lia. } { rewrite length_insert. lia. }
  { apply Forall_insert; [done|]. apply Hin. lia. }
  destruct (Lcg.pool_draw k _ (live - 1) (Lcg.next s)) as [xs s2].
  simpl in *.
  split; [lia|]. constructor; [|done]. apply Hin. lia.
Qed.

#[global] Instance lcg_laws : RandomLaws N.
Proof.
  split; simpl.
  - apply lcg_below_lt.
  - intros n k s Hk. apply (lcg_pool_draw n); rewrite ?length_seq; try lia.
    apply Forall_forall. intros j Hj%elem_of_seq. lia.
  - intros n k s Hk. apply (lcg_pool_draw n); rewrite ?length_seq; try lia.
    apply Forall_forall. intros j Hj%elem_of_seq. lia.
Qed.

Lemma exact_ltb (x y : Exact.num) :
  Exact.ltb x y = true <->
  exists a b, x = Some a /\ y = Some b /\ (a < b)%Qc.
Proof.
  split.
  - destruct x as [a|], y as [b|]; simpl; try done.
    intros Hc. exists a, b. split_and!; [done..|].
    apply Qlt_alt. unfold Qccompare in Hc. by destruct (Qcompare a b).
  - intros (a & b & -> & -> & Hlt). simpl.
    apply Qlt_alt in Hlt. unfold Qccompare, Qcompare in *. by rewrite Hlt.
Qed.

Lemma exact_ltb_false (x y : Exact.num) :
  (forall a b, x = Some a -> y = Some b -> ~ (a < b)%Qc) ->
  Exact.ltb x y = false.
Proof.
  intros Hno. destruct (Exact.ltb x y) eqn:E; [|done].
  apply exact_ltb in E as (a & b & Ha & Hb & Hlt). by destruct (Hno a b).
Qed.

#[global] Instance exact_order : FloatOrder Exact.num.
Proof.
  split; simpl.
  - done.
  - by intros [a|].
  - intros x. apply exact_ltb_false. intros a b -> [= ->].
    intros Hlt. by apply Qclt_not_eq in Hlt.
  - intros x y z (a & b & -> & -> & Hab)%exact_ltb
      (b' & c & [= <-] & -> & Hbc)%exact_ltb.
    apply exact_ltb. exists a, c. split_and!; [done..|].
    by eapply Qclt_trans.
  - by intros [a|] y.
  - intros x [b|] Hy; [done|]. by destruct x.
  - intros x [b|] z Hy (a & c & -> & -> & Hac)%exact_ltb; [|done].
    destruct (Qclt_le_dec a b) as [Hab|Hba].
    + left. apply exact_ltb. by exists a, b.
    + right. apply exact_ltb. exists b, c. split_and!; [done..|].
      by eapply Qcle_lt_trans.
Qed.

(** In the exact model two values are equal as floats only when they are
    the same value. *)
Lemma exact_fsame (x y : Exact.num) : fsame x y = true <-> x = y.
Proof.
  unfold fsame, feq. destruct x as [a|], y as [b|]; simpl;
    try (split; done).
  split.
  - intros [Hab Hba]%andb_prop. f_equal.
    apply Qcle_antisym; apply Qcnot_lt_le; intros Hlt.
    + assert (Exact.ltb (Some b) (Some a) = true) as E.
      { apply exact_ltb. by exists b, a. }
      simpl in E. by rewrite E in Hba.
    + assert (Exact.ltb (Some a) (Some b) = true) as E.
      { apply exact_ltb. by exists a, b. }
      simpl in E. by rewrite E in Hab.
  - intros [= ->]. pose proof (flt_irrefl (Some b : Exact.num)) as E.
    simpl in E. by rewrite E.
Qed.

#[global] Instance exact_arith : FloatArith Exact.num.
Proof.
  split.
  - done.
  - by intros [a|] [b|].
  - by intros [a|] n.
  - intros x. apply exact_fsame. destruct x as [a|]; [|done]. simpl.
    f_equal. unfold Exact.of_count. simpl.
    change (Q2Qc (inject_Z 1)) with 1%Qc.
    rewrite Qcplus_0_l. unfold Qcdiv.
    change (/ 1)%Qc with 1%Qc. apply Qcmult_1_r.
  - intros x y y' ->%exact_fsame. by apply exact_fsame.
  - intros x x' ->%exact_fsame. by apply exact_fsame.
  - intros x x' y y' ->%exact_fsame ->%exact_fsame. by apply exact_fsame.
Qed.

(** * The clustering engine meets its specification *)

Section engine_claims.
Context {F : Type} `{FloatOps F} {G : Type} `{RandomSource G}.
Context `{!RandomLaws G}.
Implicit Types (points : list (@point F)) (s : G).





(** A negative [k] is not a cluster count: with no point, [random.sample]
    refuses it. *)
Lemma kmeans_negative_k_raises (k max_iter : Z) s :
  (k < 0)%Z -> kmeans ([] : list (@point F)) k max_iter s = Raise ValueError.
Proof.
  intros Hk. unfold kmeans, kmeans_log, init_centroids, py_sample. simpl.
  rewrite decide_False by lia. by rewrite decide_False by lia.
Qed.

Context `{!FloatOrder F}.



End engine_claims.

(** ** Equality of floats and the mean *)

Section float_facts.
Context {F : Type} `{FloatOps F} `{!FloatOrder F}.







Context `{!FloatArith F}.




End float_facts.

Section sums.
Context {F : Type} `{FloatOps F}.

Lemma psum_fst (ps : list (@point F)) (init : @point F) :
  (psum init ps).1 = foldl fadd init.1 ps.*1.
Proof.
  revert init. induction ps as [|p ps IH]; intros init; [done|].
  simpl. by rewrite IH.
Qed.

Lemma psum_snd (ps : list (@point F)) (init : @point F) :
  (psum init ps).2 = foldl fadd init.2 ps.*2.
Proof.
  revert init. induction ps as [|p ps IH]; intros init; [done|].
  simpl. by rewrite IH.
Qed.




End sums.

(** ** One cluster, and one cluster per point *)

Section degenerate.
Context {F : Type} `{FloatOps F} `{!FloatOrder F} `{!FloatArith F}.
Implicit Types (points centroids : list (@point F)) (cy : @cycle F).









End degenerate.

Section degenerate_claims.
Context {F : Type} `{FloatOps F} `{!FloatOrder F} `{!FloatArith F}.
Context {G : Type} `{RandomSource G} `{!RandomLaws G}.
Implicit Types (points : list (@point F)) (s : G).

(** [choose_k] returns 1 exactly for the groups no larger than the
    capacity. *)
Lemma choose_k_one (n target_capacity : Z) :
  (1 <= n)%Z ->
  choose_k n target_capacity = 1%Z <-> (n <= Z.max 1 target_capacity)%Z.
Proof.
  intros Hn. unfold choose_k.
  destruct (Z.leb_spec n 0); [lia|].
  rewrite math_ceil_true_div by lia.
  destruct (ceil_div_spec n (Z.max 1 target_capacity) ltac:(lia))
    as [HK1 HK2].
  set (K := (- (- n / Z.max 1 target_capacity))%Z) in *.
  split.
  - intros HK3. assert (K <= 1 \/ n <= 1)%Z as [HK4|] by lia; [|lia].
    nia.
  - intros Hle. specialize (HK2 1%Z ltac:(lia)). lia.
Qed.



End degenerate_claims.

(** * The batch *)

Section batch_claims.
Context {F : Type} `{FloatOps F} `{FloatText F} {G : Type} `{RandomSource G}.


End batch_claims.

(** * Concrete runs *)

(** C10: there is an input that meets the preconditions of the engine,
    two identical points with [K = 2] and [max_iter = 1], for which the
    assignments [kmeans] returns under any random source leave a cluster
    index of [[0, K)] without point, so that its summary row reports the
    size 0 with a defined, re-seeded, centroid. *)
Theorem kmeans_can_leave_empty_cluster :
  exists (points : list (float * float)) (k max_iter : Z),
    points ≠ [] /\ (1 <= k <= Z.of_nat (length points))%Z /\
    forall (G : Type) (R : RandomSource G), RandomLaws G -> forall s : G,
      exists assignments centroids s' cluster_counts c cc,
        kmeans points k max_iter s = Ok (assignments, centroids, s') /\
        count_clusters assignments (replicate (Z.to_nat k) 0)
          = Ok cluster_counts /\
        c < Z.to_nat k /\
        members c points assignments = [] /\
        cluster_counts !! c = Some 0 /\
        centroids !! c = Some cc /\ cc ∈ points /\
        point_isnan cc = false /\
        forall (T : FloatText float) (key : group_key),
          exists row, summary_row_of key cluster_counts (c, cc) = Ok row /\
                      sm_cluster_size row = "0".
Proof.
  exists twins, 2%Z, 1%Z. split; [done|]. split; [simpl; lia|].
  intros G R L s.
  destruct (kmeans_log_spec twins 2 1 s) as
    (centroids0 & assignments & centroids & s' & log
     & _ & Hkm & _ & _ & Hc0 & Hrun).
  { left. split; [done|simpl; lia]. }
  rewrite (Hc0 ltac:(simpl; lia)) in Hrun.
  assert (exists cy, pass_of twins 2 cy /\ cy_start_centroids cy = twins /\
            assignments = cy_assignments cy /\ centroids = cy_centroids cy)
    as (cy & Hpass & Hstart & -> & ->).
  { change (Z.to_nat 1) with 1 in Hrun.
    inversion Hrun as [|? ? ? cy Hp Hsa Hsc Hch
                       |? ? ? cy ? ? ? Hp Hsa Hsc Hch Hrest]; subst.
    - by exists cy.
    - inversion Hrest; subst. by exists cy. }
  destruct Hpass as (Hn & _ & _ & _ & Hre & Hf2 & _).
  rewrite Hstart in Hn.
  assert (cy_assignments cy = [0; 0]) as Ha.
  { assert (mapM (fun p => nearest p twins 2) twins = Ok [0; 0]) as E
      by (vm_compute; reflexivity).
    congruence. }
  rewrite Ha in *.
  assert (cy_recomputed cy = [(1, 2); (nan, nan)]%float) as Hrc.
  { rewrite Hre. vm_compute. reflexivity. }
  rewrite Hrc in Hf2. clear Hre Hrc.
  destruct (cy_centroids cy) as [|c0 [|c1 [|c2 cs]]];
    try (by repeat (inversion Hf2 as [|? ? ? ? ? Hf2']; subst;
                     clear Hf2; rename Hf2' into Hf2)).
  apply Forall2_cons_1 in Hf2 as [_ Hf2].
  apply Forall2_cons_1 in Hf2 as [Hin _].
  change (c1 ∈ twins) in Hin.
  assert (c1 = (1, 2)%float) as ->.
  { unfold twins in Hin.
    apply elem_of_cons in Hin as [->|Hin]; [done|].
    apply elem_of_cons in Hin as [->|Hin]; [done|].
    by apply elem_of_nil in Hin. }
  exists [0; 0], [c0; (1, 2)%float], s', [2; 0], 1, (1, 2)%float.
  split_and!; try done.
  - compute. lia.
  - intros T [[[d start] end_] uni]. eexists. split; [reflexivity|].
    reflexivity.
Qed.



(** * The statements at concrete inputs *)











(** * Further properties of the cluster-count selector *)





(** * Further properties of the steps of the engine *)

Section more_steps.
Context {F : Type} `{FloatOps F}.
Implicit Types (points centroids : list (@point F)).

(** The accumulation loop raises [IndexError] at a cluster index that is
    not a position of [sums]. *)
Lemma accumulate_out_of_range (pcs : list (@point F * nat))
    (sums : list (@point F)) (counts : list nat) :
  length sums = length counts ->
  Exists (fun pc => length sums <= pc.2) pcs ->
  accumulate pcs sums counts = Raise IndexError.
Proof.
  revert sums counts.
  induction pcs as [|[p c] pcs IH]; intros sums counts Hlen Hex.
  { by apply Exists_nil in Hex. }
  simpl. destruct (decide (c < length sums)) as [Hc|Hc].
  - destruct (py_get_lt sums c Hc) as (sc & _ & ->). simpl.
    rewrite py_set_lt by done. simpl.
    destruct (py_get_lt counts c ltac:(lia)) as (n & _ & ->). simpl.
    rewrite py_set_lt by lia. simpl.
    apply IH; [by rewrite !length_insert|].
    rewrite length_insert.
    apply Exists_cons in Hex as [Hex|Hex]; [simpl in Hex; lia|done].
  - assert (py_get sums c = Raise IndexError) as ->; [|done].
    unfold py_get. by rewrite lookup_ge_None_2 by lia.
Qed.

(** [recompute_centroids] on assignments that are all cluster indices:
    it returns [k] centroids, the one of the cluster [c] being undefined
    when no point is assigned to [c] and otherwise the sums of the
    coordinates of its points, added in the order of the list from 0.0,
    divided by their number. *)
Theorem recompute_centroids_means points (assignments : list nat) (k : Z) :
  Forall (fun c => c < Z.to_nat k) assignments ->
  exists centroids,
    recompute_centroids points assignments k = Ok centroids /\
    length centroids = Z.to_nat k /\
    forall c, c < Z.to_nat k ->
      centroids !! c = Some (cluster_mean points assignments c) /\
      (members c points assignments = [] ->
         cluster_mean points assignments c = (fnan, fnan)) /\
      (members c points assignments ≠ [] ->
         cluster_mean points assignments c =
           (fdivn (foldl fadd fzero (members c points assignments).*1)
                  (length (members c points assignments)),
            fdivn (foldl fadd fzero (members c points assignments).*2)
                  (length (members c points assignments)))).
Proof.
  intros Hall. eexists. split; [by apply recompute_centroids_spec|].
  split; [by rewrite length_fmap, length_seq|].
  intros c Hc. split_and!.
  - by rewrite list_lookup_fmap, lookup_seq_lt.
  - intros Hm. unfold cluster_mean. by rewrite Hm.
  - intros Hm. unfold cluster_mean.
    rewrite decide_False by by destruct (members c points assignments).
    by rewrite psum_fst, psum_snd.
Qed.

(** [recompute_centroids] raises [IndexError] when a point is paired with
    an assignment that is not a cluster index. *)
Theorem recompute_centroids_out_of_range points (assignments : list nat)
    (k : Z) (i : nat) (p : @point F) (c : nat) :
  points !! i = Some p -> assignments !! i = Some c -> Z.to_nat k <= c ->
  recompute_centroids points assignments k = Raise IndexError.
Proof.
  intros Hp Hc Hk. unfold recompute_centroids.
  rewrite accumulate_out_of_range; [done|by rewrite !length_replicate|].
  apply Exists_exists. exists (p, c). split.
  - apply (list_elem_of_lookup_2 _ i). apply lookup_zip_with_Some.
    by exists p, c.
  - by rewrite length_replicate.
Qed.


End more_steps.

Lemma recompute_centroids_means_witness :
  exists centroids,
    recompute_centroids five [1; 1; 0; 0; 0] 2 = Ok centroids /\
    length centroids = Z.to_nat 2 /\
    forall c, c < Z.to_nat 2 ->
      centroids !! c = Some (cluster_mean five [1; 1; 0; 0; 0] c) /\
      (members c five [1; 1; 0; 0; 0] = [] ->
         cluster_mean five [1; 1; 0; 0; 0] c = (fnan, fnan)) /\
      (members c five [1; 1; 0; 0; 0] ≠ [] ->
         cluster_mean five [1; 1; 0; 0; 0] c =
           (fdivn (foldl fadd fzero (members c five [1; 1; 0; 0; 0]).*1)
                  (length (members c five [1; 1; 0; 0; 0])),
            fdivn (foldl fadd fzero (members c five [1; 1; 0; 0; 0]).*2)
                  (length (members c five [1; 1; 0; 0; 0])))).
Proof.
  apply (recompute_centroids_means five [1; 1; 0; 0; 0] 2).
  repeat (constructor; [simpl; lia|]). constructor.
Defined.

Lemma recompute_centroids_out_of_range_witness :
  recompute_centroids five [1; 1; 2; 0; 0] 2 = Raise IndexError.
Proof.
  apply (recompute_centroids_out_of_range five [1; 1; 2; 0; 0] 2 2
           (5, 5)%float 2); [reflexivity|reflexivity|simpl; lia].
Defined.

(** * Further properties of [kmeans] *)

Section more_kmeans.
Context {F : Type} `{FloatOps F} `{!FloatOrder F}.
Context {G : Type} `{RandomSource G} `{!RandomLaws G}.
Implicit Types (points centroids : list (@point F)) (s : G).

Lemma init_centroids_all points (k : Z) s :
  (Z.of_nat (length points) <= k)%Z ->
  init_centroids points k s = Ok (points, s).
Proof. intros Hk. unfold init_centroids. by rewrite decide_True. Qed.

Lemma init_centroids_negative points (k : Z) s :
  (k < 0)%Z -> init_centroids points k s = Raise ValueError.
Proof.
  intros Hk. unfold init_centroids, py_sample.
  rewrite decide_False by lia. by rewrite decide_False by lia.
Qed.

Lemma init_centroids_sample points (k : Z) s :
  (0 <= k < Z.of_nat (length points))%Z ->
  exists centroids s',
    init_centroids points k s = Ok (centroids, s') /\
    length centroids = Z.to_nat k /\
    Forall (fun c => c ∈ points) centroids.
Proof.
  intros Hk. unfold init_centroids, py_sample.
  rewrite decide_False by lia. rewrite decide_True by lia.
  pose proof (rand_sample_length (length points) (Z.to_nat k) s ltac:(lia))
    as Hlen.
  pose proof (rand_sample_lt (length points) (Z.to_nat k) s ltac:(lia))
    as Hjs.
  destruct (rand_sample (length points) (Z.to_nat k) s) as [js s'].
  simpl in *.
  destruct (mapM_res_total (py_get points) js) as [cs Hcs].
  { eapply Forall_impl; [exact Hjs|]. intros j Hj. simpl in Hj.
    destruct (py_get_lt points j Hj) as (x & _ & Hx). by exists x. }
  rewrite Hcs. simpl. exists cs, s'. split_and!; [done| |].
  - apply mapM_res_ok, Forall2_length in Hcs. lia.
  - by eapply in_points_lookup.
Qed.

(** [init_centroids]: with [k] at least the number of points it returns
    the points and draws nothing; with a smaller [k >= 0] it returns [k]
    points of the list; with [k < 0] it raises [ValueError]. *)
Theorem init_centroids_cases points (k : Z) s :
  ((Z.of_nat (length points) <= k)%Z ->
     init_centroids points k s = Ok (points, s)) /\
  ((0 <= k < Z.of_nat (length points))%Z ->
     exists centroids s',
       init_centroids points k s = Ok (centroids, s') /\
       length centroids = Z.to_nat k /\
       Forall (fun c => c ∈ points) centroids) /\
  ((k < 0)%Z -> init_centroids points k s = Raise ValueError).
Proof.
  split_and!.
  - apply init_centroids_all.
  - apply init_centroids_sample.
  - apply init_centroids_negative.
Qed.








End more_kmeans.

Section final_centroids.
Context {F : Type} `{FloatOps F} {G : Type} `{RandomSource G}.
Context `{!RandomLaws G}.
Implicit Types (points centroids : list (@point F)) (s : G).


End final_centroids.

Lemma init_centroids_cases_witness :
  ((Z.of_nat (length five) <= 2)%Z ->
     init_centroids (G := N) five 2 (rand_seed 42)
     = Ok (five, rand_seed 42)) /\
  ((0 <= 2 < Z.of_nat (length five))%Z ->
     exists centroids s',
       init_centroids (G := N) five 2 (rand_seed 42)
         = Ok (centroids, s') /\
       length centroids = Z.to_nat 2 /\
       Forall (fun c => c ∈ five) centroids) /\
  ((2 < 0)%Z ->
     init_centroids (G := N) five 2 (rand_seed 42) = Raise ValueError).
Proof. apply (init_centroids_cases (G := N) five 2 (rand_seed 42)). Defined.




(** * Further properties of the batch: the groups *)

Lemma first_seen_snoc {A : Type} `{EqDecision A} (l : list A) (x : A) :
  first_seen (l ++ [x]) = seen_step (first_seen l) x.
Proof. unfold first_seen. by rewrite foldl_app. Qed.

Lemma first_seen_spec {A : Type} `{EqDecision A} (l : list A) :
  NoDup (first_seen l) /\ forall x, x ∈ first_seen l <-> x ∈ l.
Proof.
  induction l as [|x l [IH1 IH2] ] using rev_ind.
  { split; [constructor|done]. }
  rewrite first_seen_snoc. unfold seen_step.
  destruct (decide (x ∈ first_seen l)) as [Hin|Hnin].
  - split; [done|]. intros y. rewrite elem_of_app, IH2, list_elem_of_singleton.
    split; [by left|]. intros [?| ->]; [done|by apply IH2].
  - split.
    + apply NoDup_app. split_and!; [done| |apply NoDup_singleton].
      intros y Hy ->%list_elem_of_singleton. done.
    + intros y. by rewrite !elem_of_app, IH2.
Qed.

(** Appending a row to groups stored one per key, in the order of a list
    of distinct keys. *)
Lemma groups_append_keyed (keys : list group_key)
    (f : group_key -> list run_row) (key : group_key) (r : run_row) :
  NoDup keys ->
  groups_append key r ((fun k => (k, f k)) <$> keys) =
    if decide (key ∈ keys)
    then (fun k => (k, if decide (k = key) then f k ++ [r] else f k)) <$> keys
    else ((fun k => (k, f k)) <$> keys) ++ [(key, [r])].
Proof.
  induction 1 as [|k0 keys Hk0 Hnd IH]; [done|].
  rewrite !fmap_cons. cbn [groups_append]. rewrite IH. clear IH.
  destruct (decide (k0 = key)) as [Heq|Hne].
  - subst k0. rewrite (decide_True (P := key ∈ key :: keys))
      by apply list_elem_of_here.
    f_equal. apply Forall_fmap_ext_1, Forall_forall. intros k Hk.
    rewrite decide_False; [done|]. by intros ->.
  - destruct (decide (key ∈ keys)) as [Hin|Hnin].
    + rewrite (decide_True (P := key ∈ k0 :: keys))
        by by apply list_elem_of_further.
      done.
    + rewrite (decide_False (P := key ∈ k0 :: keys)); [done|].
      intros [-> | ?]%elem_of_cons; done.
Qed.

Lemma group_rows_snoc (rows : list run_row) (r : run_row) :
  group_rows (rows ++ [r]) = groups_append (key_of r) r (group_rows rows).
Proof. unfold group_rows. by rewrite foldl_app. Qed.

Lemma group_rows_keyed (rows : list run_row) :
  group_rows rows =
    (fun k => (k, rows_of_key rows k)) <$> first_seen (key_of <$> rows).
Proof.
  induction rows as [|r rows IH] using rev_ind; [done|].
  destruct (first_seen_spec (key_of <$> rows)) as [Hnd Hin].
  rewrite group_rows_snoc, IH, groups_append_keyed by done.
  rewrite fmap_app. change (key_of <$> [r]) with [key_of r].
  rewrite first_seen_snoc. unfold seen_step.
  destruct (decide (key_of r ∈ first_seen (key_of <$> rows))) as [Hk|Hk].
  - apply Forall_fmap_ext_1, Forall_forall. intros k _. f_equal.
    unfold rows_of_key. rewrite filter_app, filter_singleton.
    + destruct (decide (k = key_of r)) as [->|Hne].
      * by rewrite decide_True.
      * rewrite decide_False by done. by rewrite app_nil_r.
    + exact [].
  - rewrite fmap_app. simpl. f_equal.
    + apply Forall_fmap_ext_1, Forall_forall. intros k Hkin. f_equal.
      unfold rows_of_key. rewrite filter_app, filter_singleton_False.
      * by rewrite app_nil_r.
      * exact [].
      * intros Heq. by rewrite Heq in Hk.
    + do 2 f_equal. unfold rows_of_key.
      rewrite filter_app, filter_singleton_True; [|exact []|done].
      assert (filter (fun r0 => key_of r0 = key_of r) rows = []) as ->; [|done].
      destruct (filter _ rows) as [|r0 l] eqn:E; [done|exfalso].
      assert (r0 ∈ filter (fun r0 => key_of r0 = key_of r) rows) as Hr0.
      { rewrite E. apply list_elem_of_here. }
      apply list_elem_of_filter in Hr0 as [Hkey Hr0].
      apply Hk, Hin. rewrite <-Hkey. by apply list_elem_of_fmap_2.
Qed.

(** The grouping of [main] is a partition of the rows by key: there is
    one group per key occurring in the input, the keys being in the order
    of their first occurrence; the group of a key holds the rows of that
    key, all of them, in the order of the input; no group is empty. *)
Theorem group_rows_partition (rows : list run_row) :
  (group_rows rows).*1 = first_seen (key_of <$> rows) /\
  NoDup (group_rows rows).*1 /\
  (forall r, r ∈ rows -> key_of r ∈ (group_rows rows).*1) /\
  (forall key g, (key, g) ∈ group_rows rows ->
     g ≠ [] /\ g = filter (fun r => key_of r = key) rows).
Proof.
  rewrite group_rows_keyed.
  destruct (first_seen_spec (key_of <$> rows)) as [Hnd Hin].
  assert (((fun k => (k, rows_of_key rows k))
           <$> first_seen (key_of <$> rows)).*1
          = first_seen (key_of <$> rows)) as Hkeys.
  { rewrite <-list_fmap_compose. apply list_fmap_id. }
  rewrite Hkeys. split_and!; [done|done| |].
  - intros r Hr. apply Hin. by apply list_elem_of_fmap_2.
  - intros key g (k & [= -> ->] & Hk)%list_elem_of_fmap. split; [|done].
    apply Hin, list_elem_of_fmap in Hk as (r & -> & Hr).
    intros Hnil. eapply (filter_nil_not_elem_of _ rows r); [exact Hnil|done..].
Qed.

(** * Further properties of the batch: identifiers and order *)

(** The decimal writing of a positive number does not start with a
    zero. *)
Lemma pretty_N_go_head (x : N) (s : string) :
  (0 < x)%N ->
  exists c s', pretty_N_go x s = String c s' /\ String c EmptyString ≠ "0".
Proof.
  revert s. induction (N.lt_wf_0 x) as [x _ IH]. intros s Hx.
  rewrite pretty_N_go_step by done.
  destruct (decide (x < 10)%N) as [Hlt|Hge].
  - rewrite N.div_small, pretty_N_go_0, N.mod_small by done.
    eexists _, _. split; [done|].
    assert (x = 1 \/ x = 2 \/ x = 3 \/ x = 4 \/ x = 5 \/ x = 6
            \/ x = 7 \/ x = 8 \/ x = 9)%N as Hc by lia.
    repeat (destruct Hc as [-> | Hc]); try subst x; done.
  - apply IH; [by apply N.div_lt|apply N.div_str_pos; lia].
Qed.

Lemma pretty_nat_head (n : nat) :
  0 < n -> exists c s', pretty n = String c s' /\ String c EmptyString ≠ "0".
Proof.
  intros Hn. unfold pretty, pretty_nat, pretty, pretty_N.
  rewrite decide_False by lia. apply pretty_N_go_head. lia.
Qed.

(** The format [{n:02d}] tells the positive numbers apart: the field is
    two digits wide for [n < 100] and widens beyond. *)
Lemma format_02d_inj (n m : nat) :
  0 < n -> 0 < m -> format_02d n = format_02d m -> n = m.
Proof.
  intros Hn Hm. unfold format_02d.
  destruct (decide (n < 10)), (decide (m < 10)); intros E.
  - apply (inj (String.app "0")) in E. by apply (inj pretty).
  - destruct (pretty_nat_head m Hm) as (c & s' & Hp & Hc).
    rewrite Hp in E. by injection E as <- _.
  - destruct (pretty_nat_head n Hn) as (c & s' & Hp & Hc).
    rewrite Hp in E. by injection E as -> _.
  - by apply (inj pretty).
Qed.

Lemma make_cluster_id_inj (key : group_key) (i j : nat) :
  make_cluster_id key i = make_cluster_id key j -> i = j.
Proof.
  destruct key as [[[d start] end_] uni]. unfold make_cluster_id.
  intros E. do 8 apply (inj (String.app _)) in E.
  apply format_02d_inj in E; lia.
Qed.

(** The cluster identifiers of one group tell its clusters apart, however
    many there are; an identifier alone does not tell the group, since a
    field of the key may contain the separator. *)
Theorem cluster_ids_distinct :
  (forall (key : group_key) (i j : nat),
     make_cluster_id key i = make_cluster_id key j -> i = j) /\
  (exists (key key' : group_key) (i : nat),
     key ≠ key' /\ make_cluster_id key i = make_cluster_id key' i).
Proof.
  split; [apply make_cluster_id_inj|].
  exists ("Mon_08:00", "09:00", "10:00", "U1"),
         ("Mon", "08:00_09:00", "10:00", "U1"), 0.
  split; [done|reflexivity].
Qed.

(** ** The order of the rows written *)





(** * Further properties of the batch: the rows written *)

Section more_batch.
Context {F : Type} `{FloatOps F} `{!FloatOrder F} `{FloatText F}.
Context {G : Type} `{RandomSource G} `{!RandomLaws G}.
Implicit Types (rows g : list run_row) (s : G) (key : group_key).
Implicit Types (assignments : list nat) (centroids : list (@point F)).
Implicit Types (results : list (list nat * list (@point F))).








(** ** The loop over the groups *)






(** ** The whole run *)




(** ** The assignment rows *)










(** ** The summary rows *)












End more_batch.

(** * A run of the batch on exact numbers *)




